(** * The store package of the focalboard server

    [server/services/store/store.go] declares the [Store] interface of the
    persistence layer and the error type [ErrNotFound] with its constructor
    [NewErrNotFound], its [Error] method and the predicate [IsErrNotFound].

    The first part of this development embeds the error type and the
    predicate, together with the fragment of Go's [fmt] and [errors]
    packages they call.  The second part is a reference store for the
    resolution of a block to its board and card, which the interface
    declares and another package implements. *)

From Stdlib Require Import String Ascii List Bool Arith Lia.
From stdpp Require Import base option list gmap strings fin_maps.

Local Open Scope string_scope.

(** ** Go values used by the package *)

(** A Go pointer [*T] is either nil or points at a value of [T].  None of
    the properties below depends on pointer identity. *)
Definition ptr (T : Type) : Type := option T.

Definition nil {T : Type} : ptr T := None.

(** ** fmt.Sprintf, restricted to string operands

    Literal bytes are copied, [%%] prints a percent sign, [%s] and [%v]
    print the next operand verbatim.  A verb with no operand left prints
    [%!s(MISSING)], operands left over are reported in a trailing
    [%!(EXTRA ...)], a lone [%] at the end prints [%!(NOVERB)].  Any other
    verb, flag or width is outside the modelled fragment: [None]. *)
Module fmt.

Fixpoint extra_operands (args : list string) : string :=
  match args with
  | [] => ""
  | [a] => "string=" +:+ a
  | a :: rest => "string=" +:+ a +:+ ", " +:+ extra_operands rest
  end.

Definition finish (args : list string) : string :=
  match args with
  | [] => ""
  | _ => "%!(EXTRA " +:+ extra_operands args +:+ ")"
  end.

Definition is_percent (c : ascii) : bool := Ascii.eqb c "%"%char.

Definition is_string_verb (c : ascii) : bool :=
  Ascii.eqb c "s"%char || Ascii.eqb c "v"%char.

(** [percent] is true when the byte before the current one was an
    unescaped [%]. *)
Fixpoint doPrintf (percent : bool) (format : string) (args : list string)
  : option string :=
  match format with
  | EmptyString =>
      Some ((if percent then "%!(NOVERB)" else "") +:+ finish args)
  | String c rest =>
      if percent then
        if is_percent c then
          String.append "%" <$> doPrintf false rest args
        else if is_string_verb c then
          match args with
          | a :: args' => String.append a <$> doPrintf false rest args'
          | [] =>
              String.append ("%!" +:+ String c "(MISSING)")
                <$> doPrintf false rest []
          end
        else None
      else if is_percent c then doPrintf true rest args
      else String c <$> doPrintf false rest args
  end.

Definition Sprintf (format : string) (args : list string) : option string :=
  doPrintf false format args.

End fmt.

(** ** The error type of the package *)

(** [type ErrNotFound struct { resource string }] *)
Record ErrNotFound : Type := mkErrNotFound { resource : string }.

(** [func NewErrNotFound(resource string) *ErrNotFound]: the address of a
    fresh struct, never nil. *)
Definition NewErrNotFound (resource : string) : ptr ErrNotFound :=
  Some {| resource := resource |}.

(** [func (nf *ErrNotFound) Error() string].  Reading [nf.resource]
    through a nil receiver panics: no result. *)
Definition Error (nf : ptr ErrNotFound) : option string :=
  v ← nf; fmt.Sprintf "{%s} not found" [resource v].

(** ** Go error values

    A non-nil value of the interface type [error] carries a dynamic
    type.  Only [*ErrNotFound] implements [error] in this package (the
    method has a pointer receiver); every other dynamic type comes from
    elsewhere and is described by what [errors.As] can observe of it:
    - whether it has a method [As(any) bool], and what that method
      answers when the target is a [**ErrNotFound];
    - whether it has [Unwrap() error] or [Unwrap() []error], and what they
      return.
    Chains are finite: an [Unwrap] that returns its own receiver is not
    represented. *)
Record foreign : Type := mkForeign {
  type_name : string;            (* the dynamic type *)
  message : string;              (* what Error() returns *)
  as_method : option bool        (* None: no As method *)
}.

(** The dynamic values of [error]:
    - [NotFoundPtr nf], of dynamic type [*ErrNotFound], the pointer
      possibly nil;
    - [Opaque d], of a type with no [Unwrap] method;
    - [Wrapper d inner], of a type with [Unwrap() error], which returns
      [inner];
    - [Joined d inners], of a type with [Unwrap() []error], which returns
      [inners]. *)
#[local] Unset Elimination Schemes.
Inductive err : Type :=
| NotFoundPtr (nf : ptr ErrNotFound)
| Opaque (d : foreign)
| Wrapper (d : foreign) (inner : option err)
| Joined (d : foreign) (inners : list (option err)).
#[local] Set Elimination Schemes.

(** The interface type [error]: nil or a non-nil dynamic value. *)
Definition error : Type := option err.

(** Conversion of a [*ErrNotFound] to [error].  A nil pointer converts to
    a non-nil interface value. *)
Definition as_error (nf : ptr ErrNotFound) : error := Some (NotFoundPtr nf).

(** [fmt.Errorf(format, ..., err)] with one [%w]: a [*fmt.wrapError],
    with [Unwrap() error] and no [As] method. *)
Definition Errorf_w (msg : string) (e : error) : error :=
  Some (Wrapper {| type_name := "*fmt.wrapError"; message := msg;
                   as_method := None |} e).

(** [err] wrapped once per message, innermost message last: what the
    callers up the stack build with [fmt.Errorf("...: %w", err)]. *)
Definition wrapAll (msgs : list string) (e : err) : error :=
  foldr Errorf_w (Some e) msgs.

(** An error made by [errors.New]: no [As], no [Unwrap]. *)
Definition plain (msg : string) : err :=
  Opaque {| type_name := "*errors.errorString"; message := msg;
            as_method := None |}.

(** An error of another package whose [As] method accepts a
    [**ErrNotFound] target. *)
Definition claimsNotFound : err :=
  Opaque {| type_name := "other.Missing"; message := "missing";
            as_method := Some true |}.

(** ** errors.As with a target of type [**ErrNotFound] *)
Module errors.

(** [reflectlite.TypeOf(err).AssignableTo(targetType)] *)
Definition assignable (e : err) : bool :=
  match e with
  | NotFoundPtr _ => true
  | _ => false
  end.

(** What is known of the dynamic type of an error of another package. *)
Definition meta (e : err) : option foreign :=
  match e with
  | NotFoundPtr _ => None
  | Opaque d | Wrapper d _ | Joined d _ => Some d
  end.

(** [x, ok := err.(interface{ As(any) bool }); ok && x.As(target)] *)
Definition as_hook (e : err) : bool :=
  match meta e with
  | Some d => default false (as_method d)
  | None => false
  end.

(** The loop of [errors.as]: the error matches when its dynamic type is
    assignable to the target's or its [As] method says so; otherwise the
    walk goes on with what it unwraps to.  A nil from [Unwrap() error] ends
    the walk, nils in the slice of [Unwrap() []error] are skipped (the slice
    is consulted since Go 1.20). *)
Fixpoint as_ (e : err) : bool :=
  assignable e
  || as_hook e
  || match e with
     | Wrapper _ (Some e') => as_ e'
     | Joined _ inners =>
         existsb (fun o => match o with
                           | Some e' => as_ e'
                           | None => false
                           end) inners
     | _ => false
     end.

(** [errors.As(err, &nf)]; what is stored in [nf] is not used by the
    caller and is left out. *)
Definition As (e : error) : bool :=
  match e with
  | None => false
  | Some e' => as_ e'
  end.

End errors.

(** [func IsErrNotFound(err error) bool] *)
Definition IsErrNotFound (e : error) : bool :=
  match e with
  | None => false
  | Some _ => errors.As e
  end.

(** ** Error chains *)

(** [InChain e x]: [x] is [e] or is reached from [e] by unwrapping. *)
Inductive InChain : err → err → Prop :=
| chain_here e : InChain e e
| chain_wrapper d i x :
    InChain i x → InChain (Wrapper d (Some i)) x
| chain_joined d inners i x :
    Some i ∈ inners → InChain i x → InChain (Joined d inners) x.

(** The error is an [*ErrNotFound]. *)
Definition isNotFound (e : err) : Prop := ∃ nf, e = NotFoundPtr nf.

(** ** Induction over error values

    The generated principle says nothing about the errors below a
    [Wrapper] or a [Joined]; this one does. *)
Section err_induction.
Variable P : err → Prop.
Hypothesis case_notfound : ∀ nf, P (NotFoundPtr nf).
Hypothesis case_opaque : ∀ d, P (Opaque d).
Hypothesis case_wrapper_nil : ∀ d, P (Wrapper d None).
Hypothesis case_wrapper : ∀ d i, P i → P (Wrapper d (Some i)).
Hypothesis case_joined :
  ∀ d inners,
    Forall (λ o, match o with Some i => P i | None => True end) inners →
    P (Joined d inners).

Fixpoint err_chain_ind (e : err) : P e :=
  match e with
  | NotFoundPtr nf => case_notfound nf
  | Opaque d => case_opaque d
  | Wrapper d None => case_wrapper_nil d
  | Wrapper d (Some i) => case_wrapper d i (err_chain_ind i)
  | Joined d inners =>
      case_joined d inners
        ((fix all (l : list (option err))
            : Forall (λ o, match o with Some i => P i | None => True end) l :=
            match l with
            | [] => @List.Forall_nil _ _
            | o :: l' =>
                @List.Forall_cons _ _ o l'
                  (match o as o'
                         return match o' with Some i => P i | None => True end
                   with
                   | Some i => err_chain_ind i
                   | None => I
                   end)
                  (all l')
            end) inners)
  end.
End err_induction.

(** ** The entities behind the interface

    [store.go] imports the entity types from the [model] package and
    only ever passes them through. *)
Module model.

(** Modelled from the spec: [model.Block], whose declaration is not in
    the package.  A block has an identifier, a parent identifier, a root
    identifier, a type tag, and belongs to a board. *)
Record Block : Type := mkBlock {
  Block_ID : string;
  Block_ParentID : string;
  Block_RootID : string;
  Block_BoardID : string;
  Block_Type : string
}.

(** Modelled from the spec: [model.TypeCard], the type tag of the blocks
    that are cards. *)
Definition TypeCard : string := "card".

(** Modelled from the spec: [model.Board], whose declaration is not in
    the package.  A container of blocks, associated with a team. *)
Record Board : Type := mkBoard {
  Board_ID : string;
  Board_TeamID : string
}.

End model.
Import model.

(** ** A reference store for boards and cards

    The package holds the [Store] interface only; the adapter that
    implements it lives in another package.  [RefStore] holds what the
    resolution of a block to its board and card reads: the table of
    blocks and the table of boards, keyed by identifier.  Each method
    returns what its Go signature returns: pointers that may be nil and
    an [error] that may be nil. *)
Module RefStore.

(** Modelled from the spec: the tables of the backing store that the
    resolution reads, which the package does not declare; identifiers
    are unique per entity family. *)
Record State : Type := mkState {
  blocks : gmap string Block;
  boards : gmap string Board
}.

(** Modelled from the spec: the body shared by the adapter's lookups by
    identifier, which are not in the package.  A lookup returns the
    entity, or fails with the NotFound kind and names the resource
    family. *)
Definition lookupByID {A : Type} (family : string) (table : gmap string A)
    (id : string) : ptr A * error :=
  match table !! id with
  | Some a => (Some a, None)
  | None => (nil, as_error (NewErrNotFound family))
  end.

(** Modelled from the spec: the adapter's [GetBlock(blockID string)],
    with results [*model.Block] and [error]. *)
Definition GetBlock (blockID : string) (s : State) : ptr Block * error :=
  lookupByID "block" (blocks s) blockID.

(** Modelled from the spec: the adapter's [GetBoard(id string)], with
    results [*model.Board] and [error]. *)
Definition GetBoard (id : string) (s : State) : ptr Board * error :=
  lookupByID "board" (boards s) id.

(** Modelled from the spec: a block whose parent identifier is empty is
    a root; it has no parent, whatever the table holds under the empty
    identifier. *)
Definition isRoot (block : Block) : bool :=
  bool_decide (Block_ParentID block = "").

(** Modelled from the spec: the walk to the nearest card inside the
    adapter's [GetBoardAndCard].  The nearest card of a block is the block
    itself when it is a card, and otherwise the nearest card of its
    parent; a root that is no card has none.  The walk gives up after
    [fuel] parents. *)
Fixpoint nearestCard (fuel : nat) (table : gmap string Block) (block : Block)
  : option Block :=
  if bool_decide (Block_Type block = TypeCard) then Some block
  else if isRoot block then None
  else
    match fuel with
    | O => None
    | S fuel' =>
        match table !! Block_ParentID block with
        | Some parent => nearestCard fuel' table parent
        | None => None
        end
    end.

(** Modelled from the spec: the adapter's [GetBoardAndCard(block
    *model.Block)], with results [board *model.Board], [card *model.Block]
    and [err error].  It resolves the owning board and the nearest card,
    and returns both or a NotFound error.  No chain of distinct stored
    parents is longer than the table, so that many steps decide the
    walk. *)
Definition GetBoardAndCard (block : Block) (s : State)
  : ptr Board * ptr Block * error :=
  match GetBoard (Block_BoardID block) s with
  | (Some board, None) =>
      match nearestCard (size (blocks s)) (blocks s) block with
      | Some card => (Some board, Some card, None)
      | None => (nil, nil, as_error (NewErrNotFound "card"))
      end
  | (_, e) => (nil, nil, e)
  end.

(** Modelled from the spec: the adapter's [GetBoardAndCardByID(blockID
    string)], with the results of [GetBoardAndCard]. *)
Definition GetBoardAndCardByID (blockID : string) (s : State)
  : ptr Board * ptr Block * error :=
  match GetBlock blockID s with
  | (Some block, None) => GetBoardAndCard block s
  | (_, e) => (nil, nil, e)
  end.

(** The nearest card, as a relation: [NearestCard table n block card]
    holds when [card] is the first card met on the way up from [block],
    [n] parents above it.  The way up ends at a root. *)
Inductive NearestCard (table : gmap string Block)
  : nat → Block → Block → Prop :=
| nearest_self block :
    Block_Type block = TypeCard → NearestCard table 0 block block
| nearest_parent n block parent card :
    Block_Type block ≠ TypeCard →
    Block_ParentID block ≠ "" →
    table !! Block_ParentID block = Some parent →
    NearestCard table n parent card →
    NearestCard table (S n) block card.

(** [block] resolves to its owning board and its nearest card. *)
Definition resolvesBlock (s : State) (block : Block) (board : Board)
    (card : Block) : Prop :=
  boards s !! Block_BoardID block = Some board
  ∧ ∃ n, NearestCard (blocks s) n block card.

(** The block stored under [blockID] resolves to a board and a card. *)
Definition resolves (s : State) (blockID : string) (board : Board)
    (card : Block) : Prop :=
  ∃ block, blocks s !! blockID = Some block ∧ resolvesBlock s block board card.

(** A result of [GetBoardAndCard] is either the pair that [R] describes,
    with a nil error, or no board, no card and an error made by
    [NewErrNotFound], which [IsErrNotFound] classifies; in that case [R]
    describes no pair. *)
Definition bothOrNotFound (R : Board → Block → Prop)
    (r : ptr Board * ptr Block * error) : Prop :=
  (∃ board card, R board card ∧ r = (Some board, Some card, nil))
  ∨ ((∀ board card, ¬ R board card)
     ∧ ∃ family,
         r = (nil, nil, as_error (NewErrNotFound family))
         ∧ IsErrNotFound r.2 = true).

End RefStore.

(** ** A small store

    Board B of team T with card C and a text block D below the card; a
    root text block R; a card stored under the empty identifier; two
    text blocks X and Y that name each other as parent; and a text block
    Z whose parent is not stored. *)
Module Scenario.
Import RefStore.

Definition boardB : Board := {| Board_ID := "B"; Board_TeamID := "T" |}.

Definition cardC : Block :=
  {| Block_ID := "C"; Block_ParentID := ""; Block_RootID := "C";
     Block_BoardID := "B"; Block_Type := "card" |}.

Definition textD : Block :=
  {| Block_ID := "D"; Block_ParentID := "C"; Block_RootID := "C";
     Block_BoardID := "B"; Block_Type := "text" |}.

Definition rootR : Block :=
  {| Block_ID := "R"; Block_ParentID := ""; Block_RootID := "R";
     Block_BoardID := "B"; Block_Type := "text" |}.

Definition cardEmpty : Block :=
  {| Block_ID := ""; Block_ParentID := ""; Block_RootID := "";
     Block_BoardID := "B"; Block_Type := "card" |}.

Definition loopX : Block :=
  {| Block_ID := "X"; Block_ParentID := "Y"; Block_RootID := "X";
     Block_BoardID := "B"; Block_Type := "text" |}.

Definition loopY : Block :=
  {| Block_ID := "Y"; Block_ParentID := "X"; Block_RootID := "X";
     Block_BoardID := "B"; Block_Type := "text" |}.

Definition danglingZ : Block :=
  {| Block_ID := "Z"; Block_ParentID := "nowhere"; Block_RootID := "Z";
     Block_BoardID := "B"; Block_Type := "text" |}.

Definition strayS : Block :=
  {| Block_ID := "S"; Block_ParentID := "C"; Block_RootID := "C";
     Block_BoardID := "gone"; Block_Type := "text" |}.

Definition scenario : State :=
  {| blocks :=
       list_to_map
         [("C", cardC); ("D", textD); ("R", rootR); ("", cardEmpty);
          ("X", loopX); ("Y", loopY); ("Z", danglingZ); ("S", strayS)];
     boards := {["B" := boardB]} |}.

End Scenario.

(** ** Running the package on concrete errors *)

Example Error_boards :
  Error (NewErrNotFound "boards") = Some "{boards} not found".
Proof. reflexivity. Qed.

Example Error_nil_receiver : Error nil = None.
Proof. reflexivity. Qed.

Example Sprintf_missing : fmt.Sprintf "a%sb" [] = Some "a%!s(MISSING)b".
Proof. reflexivity. Qed.

Example Sprintf_extra :
  fmt.Sprintf "a" ["x"; "y"] = Some "a%!(EXTRA string=x, string=y)".
Proof. reflexivity. Qed.

Example Sprintf_noverb :
  fmt.Sprintf "100%" ["x"] = Some "100%!(NOVERB)%!(EXTRA string=x)".
Proof. reflexivity. Qed.

Example Sprintf_percent : fmt.Sprintf "%v: 100%%" ["cpu"] = Some "cpu: 100%".
Proof. reflexivity. Qed.

Example Sprintf_other_verb : fmt.Sprintf "%d" ["x"] = None.
Proof. reflexivity. Qed.

Example IsErrNotFound_wrapped_twice :
  IsErrNotFound
    (Errorf_w "outer" (Errorf_w "inner" (as_error (NewErrNotFound "block"))))
  = true.
Proof. reflexivity. Qed.

Example IsErrNotFound_plain : IsErrNotFound (Some (plain "boom")) = false.
Proof. reflexivity. Qed.

Example IsErrNotFound_typed_nil : IsErrNotFound (as_error nil) = true.
Proof. reflexivity. Qed.

Example IsErrNotFound_joined :
  IsErrNotFound
    (Some (Joined {| type_name := "*errors.joinError"; message := "a\nb";
                     as_method := None |}
             [None; Some (plain "a"); as_error (NewErrNotFound "user")]))
  = true.
Proof. reflexivity. Qed.

(** ** What IsErrNotFound answers *)

Lemma as_matches (e : err) :
  isNotFound e ∨ errors.as_hook e = true → errors.as_ e = true.
Proof.
  intros [[nf ->]|Hhook]; [done|].
  destruct e as [nf|d|d inner|d inners]; [done|..];
    cbn [errors.as_ errors.assignable orb]; by rewrite Hhook.
Qed.

(** An error anywhere in the chain that matches makes the whole walk
    answer true. *)
Lemma as_chain (e x : err) :
  InChain e x → errors.as_ x = true → errors.as_ e = true.
Proof.
  induction 1 as [e|d i x _ IH|d inners i x Hin _ IH]; intros Hx.
  - exact Hx.
  - simpl. rewrite (IH Hx). apply orb_true_r.
  - simpl. apply orb_true_iff. right.
    apply existsb_exists. exists (Some i). split.
    + by apply list_elem_of_In.
    + by apply IH.
Qed.

(** Conversely, a walk that answers true has met an [*ErrNotFound] or an
    [As] method that said yes. *)
Lemma as_inv (e : err) :
  errors.as_ e = true →
  ∃ x, InChain e x ∧ (isNotFound x ∨ errors.as_hook x = true).
Proof.
  induction e as [nf|d|d|d i IH|d inners IH] using err_chain_ind;
    simpl; intros H.
  - exists (NotFoundPtr nf). split; [constructor | left; by exists nf].
  - rewrite orb_false_r in H.
    exists (Opaque d). split; [constructor | right; exact H].
  - rewrite orb_false_r in H.
    exists (Wrapper d None). split; [constructor | right; exact H].
  - apply orb_true_iff in H as [H|H].
    + exists (Wrapper d (Some i)). split; [constructor | right; exact H].
    + destruct (IH H) as (x & Hx & Hm).
      exists x. split; [by constructor | exact Hm].
  - apply orb_true_iff in H as [H|H].
    + exists (Joined d inners). split; [constructor | right; exact H].
    + apply existsb_exists in H as (o & Hin & Ho).
      destruct o as [i|]; [|done].
      rewrite Forall_forall in IH.
      apply list_elem_of_In in Hin.
      destruct (IH _ Hin Ho) as (x & Hx & Hm).
      exists x. split; [by econstructor | exact Hm].
Qed.

(** X1.  [IsErrNotFound] answers true on a non-nil error exactly when
    some error of its chain is an [*ErrNotFound] or has an [As] method that
    accepts a [**ErrNotFound] target. *)
Lemma IsErrNotFound_true_iff (e : err) :
  IsErrNotFound (Some e) = true
  ↔ ∃ x, InChain e x ∧ (isNotFound x ∨ errors.as_hook x = true).
Proof.
  split; [apply as_inv|].
  intros (x & Hx & Hm). simpl. by apply (as_chain e x Hx), as_matches.
Qed.

(** C1.  An error that is an [*ErrNotFound], or that has one anywhere in
    its chain, is classified as not found; wrapping a classified error
    with [fmt.Errorf] and [%w] keeps it classified; and every error made by
    [NewErrNotFound] is classified, whatever the resource. *)
Theorem IsErrNotFound_is_or_wraps :
  (∀ e x : err, InChain e x → isNotFound x → IsErrNotFound (Some e) = true)
  ∧ (∀ (msg : string) (e : error),
       IsErrNotFound e = true → IsErrNotFound (Errorf_w msg e) = true)
  ∧ (∀ r : string, IsErrNotFound (as_error (NewErrNotFound r)) = true).
Proof.
  split; [|split].
  - intros e x Hchain Hnf. simpl.
    apply (as_chain e x Hchain), as_matches. by left.
  - intros msg [e|] H; [|done]. simpl in *. exact H.
  - reflexivity.
Qed.

Lemma IsErrNotFound_is_or_wraps_witness :
  IsErrNotFound
    (Some (Wrapper {| type_name := "*errors.withStack"; message := "get block";
                      as_method := Some false |}
             (as_error (NewErrNotFound "block")))) = true
  ∧ IsErrNotFound (Errorf_w "ctx" (as_error (NewErrNotFound "board"))) = true.
Proof.
  split.
  - apply (proj1 IsErrNotFound_is_or_wraps _
             (NotFoundPtr (NewErrNotFound "block"))).
    + apply chain_wrapper, chain_here.
    + by exists (NewErrNotFound "block").
  - apply (proj1 (proj2 IsErrNotFound_is_or_wraps)). reflexivity.
Defined.

Lemma InChain_Opaque (d : foreign) (x : err) :
  InChain (Opaque d) x → x = Opaque d.
Proof. by inversion 1. Qed.

(** C2, as stated, fails: [claimsNotFound] is not an [*ErrNotFound] and
    wraps nothing, yet it is classified as not found. *)
Lemma IsErrNotFound_foreign_As :
  (∀ x, InChain claimsNotFound x → ¬ isNotFound x)
  ∧ IsErrNotFound (Some claimsNotFound) = true.
Proof.
  split; [|reflexivity].
  intros x Hx [nf ->]. by apply InChain_Opaque in Hx.
Qed.

(** C2, amended.  A non-nil error in whose chain no error is an
    [*ErrNotFound] and no error has an [As] method that accepts a
    [**ErrNotFound] target is not classified as not found. *)
Theorem IsErrNotFound_other (e : err) :
  (∀ x, InChain e x → ¬ isNotFound x ∧ errors.as_hook x = false) →
  IsErrNotFound (Some e) = false.
Proof.
  intros Hnone. simpl.
  destruct (errors.as_ e) eqn:Has; [|done].
  destruct (as_inv e Has) as (x & Hx & [Hnf|Hhook]).
  - by destruct (Hnone x Hx) as [Hno _].
  - destruct (Hnone x Hx) as [_ Hno]. congruence.
Qed.

Lemma IsErrNotFound_other_witness :
  IsErrNotFound (Some (plain "connection refused")) = false.
Proof.
  apply (IsErrNotFound_other (plain "connection refused")).
  intros x Hx. apply InChain_Opaque in Hx as ->.
  split; [intros [nf Hnf]; discriminate | reflexivity].
Defined.

Lemma append_length (s t : string) :
  String.length (s +:+ t) = String.length s + String.length t.
Proof. induction s as [|a s IH]; simpl; [done | by rewrite IH]. Qed.

Lemma append_inv_tail (s s' t : string) : s +:+ t = s' +:+ t → s = s'.
Proof.
  revert s'. induction s as [|a s IH]; intros [|a' s'] H; simpl in H.
  - done.
  - apply (f_equal String.length) in H. simpl in H.
    rewrite !append_length in H. simpl in H. lia.
  - apply (f_equal String.length) in H. simpl in H.
    rewrite !append_length in H. simpl in H. lia.
  - injection H as -> H. f_equal. by apply IH.
Qed.

(** C3.  The message of the error made by [NewErrNotFound r] is [r]
    between braces followed by [ not found]; the message therefore tells
    the resources apart. *)
Theorem Error_NewErrNotFound (r : string) :
  Error (NewErrNotFound r) = Some ("{" +:+ r +:+ "} not found")
  ∧ ∀ r', Error (NewErrNotFound r') = Error (NewErrNotFound r) → r' = r.
Proof.
  assert (∀ x, Error (NewErrNotFound x) = Some ("{" +:+ x +:+ "} not found"))
    as Hmsg by reflexivity.
  split; [apply Hmsg|].
  intros r'. rewrite !Hmsg. intros [= H].
  change (r' +:+ "} not found" = r +:+ "} not found") in H.
  by apply append_inv_tail in H.
Qed.

Lemma Error_NewErrNotFound_witness :
  Error (NewErrNotFound "board members") = Some "{board members} not found"
  ∧ "board members" = "board members".
Proof.
  split.
  - exact (proj1 (Error_NewErrNotFound "board members")).
  - apply (proj2 (Error_NewErrNotFound "board members") "board members").
    reflexivity.
Defined.

(** C4.  The nil error is not classified as not found. *)
Theorem IsErrNotFound_nil : IsErrNotFound (nil : error) = false.
Proof. reflexivity. Qed.

(** ** Wrapping, and nil pointers *)

Lemma IsErrNotFound_Errorf_w (msg : string) (e : error) :
  IsErrNotFound (Errorf_w msg e) = IsErrNotFound e.
Proof. destruct e as [e|]; reflexivity. Qed.

Lemma wrapAll_not_nil (msgs : list string) (e : err) : wrapAll msgs e ≠ nil.
Proof. destruct msgs; discriminate. Qed.

(** X2.  Wrapping a non-nil error with [fmt.Errorf] and [%w], any number
    of times, leaves a non-nil error with the same answer of
    [IsErrNotFound]: the wrapping neither hides a not-found error nor
    makes one. *)
Theorem IsErrNotFound_wrapAll (msgs : list string) (e : err) :
  wrapAll msgs e ≠ nil
  ∧ IsErrNotFound (wrapAll msgs e) = IsErrNotFound (Some e).
Proof.
  split; [apply wrapAll_not_nil|].
  induction msgs as [|msg msgs IH]; [done|].
  unfold wrapAll in *. cbn [foldr].
  by rewrite IsErrNotFound_Errorf_w.
Qed.

(** X3.  Every [*ErrNotFound] converted to [error] is classified as not
    found, the nil pointer included; but [Error] has a result only on a
    non-nil receiver: on the nil pointer it dereferences nil. *)
Theorem ErrNotFound_pointer (nf : ptr ErrNotFound) :
  IsErrNotFound (as_error nf) = true ∧ (Error nf = None ↔ nf = nil).
Proof.
  split; [reflexivity|].
  destruct nf as [v|]; split; done.
Qed.

(** ** The reference store: nearest cards *)
Module RefStoreFacts.
Import RefStore.
Local Close Scope string_scope.

Lemma NearestCard_is_card (table : gmap string Block) n block card :
  NearestCard table n block card → Block_Type card = TypeCard.
Proof. induction 1; auto. Qed.

(** The first step of the way up: a block that is no card and has a
    parent identifier continues at what is stored under it. *)
Lemma NearestCard_step (table : gmap string Block) n block card :
  NearestCard table n block card →
  Block_Type block ≠ TypeCard →
  ∃ m parent,
    n = S m ∧ Block_ParentID block ≠ ""%string
    ∧ table !! Block_ParentID block = Some parent
    ∧ NearestCard table m parent card.
Proof.
  intros H Hty. destruct H as [block Hcard|m block parent card _ Hne Hp Hnc].
  - done.
  - by exists m, parent.
Qed.

(** The way up is determined by the table: a block has at most one
    nearest card, at one distance. *)
Lemma NearestCard_functional (table : gmap string Block) n n' block c c' :
  NearestCard table n block c → NearestCard table n' block c' →
  n = n' ∧ c = c'.
Proof.
  intros H. revert n' c'.
  induction H as [block Hty|n block parent card Hty Hne Hp _ IH];
    intros n' c' H'.
  - destruct H' as [block _|m block parent card Hty' _ _ _]; done.
  - destruct (NearestCard_step _ _ _ _ H' Hty)
      as (m & parent' & -> & _ & Hp' & Hnc').
    assert (parent' = parent) as -> by congruence.
    destruct (IH _ _ Hnc') as [-> ->]. done.
Qed.

Lemma nearestCard_sound (table : gmap string Block) fuel block card :
  nearestCard fuel table block = Some card →
  ∃ n, n ≤ fuel ∧ NearestCard table n block card.
Proof.
  revert block. induction fuel as [|fuel IH]; intros block; simpl;
    unfold isRoot; case_bool_decide as Hty.
  - intros [= <-]. exists 0. split; [lia | by constructor].
  - by case_bool_decide.
  - intros [= <-]. exists 0. split; [lia | by constructor].
  - case_bool_decide as Hroot; [done|].
    destruct (table !! Block_ParentID block) as [parent|] eqn:Hp; [|done].
    intros H. destruct (IH _ H) as (n & Hn & Hnc).
    exists (S n). split; [lia | by econstructor].
Qed.

Lemma nearestCard_complete (table : gmap string Block) fuel n block card :
  NearestCard table n block card → n ≤ fuel →
  nearestCard fuel table block = Some card.
Proof.
  intros H. revert fuel.
  induction H as [block Hty|n block parent card Hty Hne Hp _ IH];
    intros fuel Hle.
  - destruct fuel; simpl; by rewrite bool_decide_eq_true_2.
  - destruct fuel as [|fuel]; [lia|]. simpl. unfold isRoot.
    rewrite !bool_decide_eq_false_2 by done. rewrite Hp. apply IH. lia.
Qed.

(** The identifiers looked up on the way to the nearest card are pairwise
    distinct: from a repeated one the walk would go round for ever. *)
Lemma NearestCard_keys (table : gmap string Block) n block card :
  NearestCard table n block card →
  ∃ ks : list string,
    length ks = n ∧ NoDup ks
    ∧ ∀ k, k ∈ ks →
        ∃ p j, table !! k = Some p ∧ j < n ∧ NearestCard table j p card.
Proof.
  induction 1 as [block Hty|n block parent card Hty Hne Hp Hnc IH].
  - exists []. split; [done|]. split; [constructor|].
    intros k Hk. by apply elem_of_nil in Hk.
  - destruct IH as (ks & Hlen & Hnd & Hks).
    exists (Block_ParentID block :: ks). split; [simpl; lia|]. split.
    + constructor; [|done]. intros Hin.
      destruct (Hks _ Hin) as (p & j & Hp' & Hj & Hnc').
      assert (p = parent) as -> by congruence.
      destruct (NearestCard_functional _ _ _ _ _ _ Hnc Hnc') as [-> _]. lia.
    + intros k [->|Hin]%elem_of_cons.
      * exists parent, n. split; [done|]. split; [lia | done].
      * destruct (Hks _ Hin) as (p & j & Hp' & Hj & Hnc').
        exists p, j. split; [done|]. split; [lia | done].
Qed.

(** So the nearest card is never further away than the table is large. *)
Lemma NearestCard_bound (table : gmap string Block) n block card :
  NearestCard table n block card → n ≤ size table.
Proof.
  intros (ks & <- & Hnd & Hks)%NearestCard_keys.
  rewrite <- (size_list_to_set (C:=gset string) ks Hnd).
  rewrite <- (size_dom (D:=gset string) table).
  apply subseteq_size. intros k Hk%elem_of_list_to_set.
  destruct (Hks _ Hk) as (p & j & Hp & _). apply elem_of_dom. by exists p.
Qed.

Lemma nearestCard_size (table : gmap string Block) block card :
  nearestCard (size table) table block = Some card
  ↔ ∃ n, NearestCard table n block card.
Proof.
  split.
  - intros (n & _ & H)%nearestCard_sound. by exists n.
  - intros [n H]. eapply nearestCard_complete; [done|].
    by eapply NearestCard_bound.
Qed.

(** A root that is no card has no nearest card, whatever is stored under
    the empty identifier. *)
Lemma NearestCard_root (table : gmap string Block) n block card :
  Block_ParentID block = ""%string → NearestCard table n block card →
  n = 0 ∧ card = block ∧ Block_Type block = TypeCard.
Proof. intros Hroot H. destruct H; done. Qed.

End RefStoreFacts.

(** ** The reference store: boards and cards *)
Module RefStoreClaims.
Import RefStore RefStoreFacts Scenario.

Example scenario_card :
  GetBoardAndCard cardC scenario = (Some boardB, Some cardC, nil).
Proof. vm_compute. reflexivity. Qed.

Example scenario_text :
  GetBoardAndCardByID "D" scenario = (Some boardB, Some cardC, nil).
Proof. vm_compute. reflexivity. Qed.

Example scenario_root_text :
  GetBoardAndCardByID "R" scenario
  = (nil, nil, as_error (NewErrNotFound "card")).
Proof. vm_compute. reflexivity. Qed.

Example scenario_loop :
  GetBoardAndCardByID "X" scenario
  = (nil, nil, as_error (NewErrNotFound "card")).
Proof. vm_compute. reflexivity. Qed.

Example scenario_dangling_parent :
  GetBoardAndCardByID "Z" scenario
  = (nil, nil, as_error (NewErrNotFound "card")).
Proof. vm_compute. reflexivity. Qed.

Example scenario_missing_board :
  GetBoardAndCardByID "S" scenario
  = (nil, nil, as_error (NewErrNotFound "board")).
Proof. vm_compute. reflexivity. Qed.

Example scenario_missing_block :
  GetBoardAndCardByID "nowhere" scenario
  = (nil, nil, as_error (NewErrNotFound "block")).
Proof. vm_compute. reflexivity. Qed.

Lemma GetBoardAndCard_spec (s : State) (block : Block) :
  bothOrNotFound (resolvesBlock s block) (GetBoardAndCard block s).
Proof.
  unfold bothOrNotFound, resolvesBlock, GetBoardAndCard, GetBoard, lookupByID.
  destruct (boards s !! Block_BoardID block) as [board|] eqn:Hboard.
  - destruct (nearestCard (size (blocks s)) (blocks s) block) as [card|]
      eqn:Hcard.
    + left. exists board, card. split; [|done]. split; [done|].
      by apply nearestCard_size.
    + right. split.
      * intros board' card' [_ Hn%nearestCard_size]. congruence.
      * by exists "card".
  - right. split.
    + intros board' card' [? _]. congruence.
    + by exists "board".
Qed.

(** C9.  [GetBoardAndCard] for a block, and [GetBoardAndCardByID] for the
    block stored under an identifier, return the owning board together
    with the nearest card (the block itself when it is a card, else the
    first card among its ancestors, the way up ending at a block with an
    empty parent identifier) and a nil error; when the block, its board
    or a card cannot be resolved they return no board, no card and an
    error made by [NewErrNotFound], classified as not found. *)
Theorem GetBoardAndCard_both_or_NotFound (s : State) :
  (∀ block, bothOrNotFound (resolvesBlock s block) (GetBoardAndCard block s))
  ∧ (∀ blockID,
       bothOrNotFound (resolves s blockID) (GetBoardAndCardByID blockID s)).
Proof.
  split; [apply GetBoardAndCard_spec|].
  intros blockID. unfold GetBoardAndCardByID, GetBlock, lookupByID, resolves.
  destruct (blocks s !! blockID) as [block|] eqn:Hblock.
  - destruct (GetBoardAndCard_spec s block)
      as [(board & card & HR & Hres)|(Hno & family & Hres & He)].
    + left. exists board, card. split; [by exists block | done].
    + right. split.
      * intros board card (block' & [= <-] & HR). by apply (Hno board card).
      * by exists family.
  - right. split.
    + intros board card (block' & ? & _). congruence.
    + by exists "block".
Qed.

End RefStoreClaims.
